(** * Raster compositing engine of the creative generator

    Shallow embedding of the compositing code of
    [src/hooks/useCreativeGenerator.ts]:
    - the placement arithmetic of [compositeImages] and the operation trace
      it issues on the 2D canvas (fill, draw, three gradient ellipses);
    - [compositeProductOnBackdrop], the alternative exported compositor;
    - [stripTransparency] and the source-over pixel arithmetic of the canvas;
    - the per-pixel loops of [chromaKeyGreen] and [removeWhiteBackground],
      whose numbers are JavaScript doubles (modelled with the kernel's
      primitive binary64 floats);
    - the compositing fallback of [generateCreative].

    Geometry and pixel blending are done in exact rational arithmetic ([Q]). *)

From Stdlib Require Import ZArith QArith Qround Lia Lqa List String Bool.
From Stdlib Require Import Floats Uint63.
Import ListNotations.

Set Warnings "-inexact-float".

(* ------------------------------------------------------------------ *)
(** ** Data model *)

(** [ProductPosition] of the compositing data. *)
Record ProductPosition := {
  x : Q; y : Q; width : Q; height : Q
}.

(** [CompositingData] returned by the generation edge function. *)
Record CompositingData := {
  enabled : bool;
  canvasWidth : Z;
  canvasHeight : Z;
  productPosition : ProductPosition
}.

(** The rectangle [(drawX, drawY, drawW, drawH)] handed to [drawImage]. *)
Record DrawRect := {
  drawX : Q; drawY : Q; drawW : Q; drawH : Q
}.

Definition Qltb (a b : Q) : bool := negb (Qle_bool b a).

(* ------------------------------------------------------------------ *)
(** ** Placement ([compositeImages], aspect-preserving, bottom-anchored) *)

(** The placement in exact arithmetic; [PlacementDoubles.place] below is the
    same computation on doubles. *)
Definition place (naturalWidth naturalHeight : Q) (pos : ProductPosition)
  : DrawRect :=
  let imgAspect := naturalWidth / naturalHeight in
  let boxAspect := width pos / height pos in
  if Qltb boxAspect imgAspect then
    (* Image is wider than box: fit to width, anchor bottom *)
    let dW := width pos in
    let dH := width pos / imgAspect in
    {| drawX := x pos; drawY := y pos + height pos - dH;
       drawW := dW; drawH := dH |}
  else
    (* Image is taller than box: fit to height, center horizontally *)
    let dH := height pos in
    let dW := height pos * imgAspect in
    {| drawX := x pos + (width pos - dW) / 2; drawY := y pos + height pos - dH;
       drawW := dW; drawH := dH |}.

(* ------------------------------------------------------------------ *)
(** ** Per-pixel classifiers over the [ImageData] byte buffer *)

Module Classifier.

Local Open Scope Z_scope.

(** JavaScript numbers are binary64 doubles. [fl] converts a small
    non-negative integer (a channel value or a sum of them) exactly. *)
Definition fl (z : Z) : float := PrimFloat.of_uint63 (Uint63.of_Z z).

(** Exact rational value of a finite double. *)
Definition float_to_Q (f : float) : Q :=
  match Prim2SF f with
  | S754_finite s m e =>
      let q := match e with
               | Z0 => inject_Z (Zpos m)
               | Zpos p => inject_Z (Zpos m * 2 ^ Zpos p)
               | Zneg p => Qmake (Zpos m) (2 ^ p)%positive
               end in
      if s then Qopp q else q
  | _ => 0%Q
  end.

(** [Math.round]: the integer nearest to the double, ties towards +oo. *)
Definition js_round (f : float) : Z := Qfloor (float_to_Q f + (1 # 2)).

(** Storing an integral number into a [Uint8ClampedArray]. *)
Definition uint8_clamp (z : Z) : Z := Z.max 0 (Z.min 255 z).

(** [g > r * 1.4] evaluated on doubles. *)
Definition gt_times_1_4 (g r : Z) : bool :=
  PrimFloat.ltb (PrimFloat.mul (fl r) 1.4%float) (fl g).

(** New alpha of one pixel in [chromaKeyGreen]. *)
Definition chroma_alpha (r g b a : Z) : Z :=
  if (180 <? g) && (r <? 120) && (b <? 120) then 0
  else if (150 <? g) && gt_times_1_4 g r && gt_times_1_4 g b then
    let greenness := PrimFloat.div (fl (g - Z.max r b)) (fl g) in
    uint8_clamp (js_round (PrimFloat.mul (fl 255) (PrimFloat.sub (fl 1) greenness)))
  else a.

(** New alpha of one pixel in [removeWhiteBackground]. *)
Definition white_alpha (r g b a : Z) : Z :=
  if (240 <? r) && (240 <? g) && (240 <? b) then 0
  else if (220 <? r) && (220 <? g) && (220 <? b) then
    let whiteness := PrimFloat.div (fl (r + g + b)) (PrimFloat.mul (fl 255) (fl 3)) in
    uint8_clamp (js_round (PrimFloat.mul (fl 255) (PrimFloat.sub (fl 1) whiteness)))
  else a.

(** The loop [for (i = 0; i < data.length; i += 4)] which reads
    [data[i..i+2]] and writes only [data[i+3]]; a trailing group of fewer
    than four bytes is left as it is (writes past the end of a typed array
    are ignored). *)
Fixpoint pixel_pass (f : Z -> Z -> Z -> Z -> Z) (data : list Z) : list Z :=
  match data with
  | r :: g :: b :: a :: rest => r :: g :: b :: f r g b a :: pixel_pass f rest
  | _ => data
  end.

Definition chromaKeyGreen_pass (data : list Z) : list Z :=
  pixel_pass chroma_alpha data.

Definition removeWhiteBackground_pass (data : list Z) : list Z :=
  pixel_pass white_alpha data.

(** The per-pixel rule as the spec words it, in exact arithmetic and
    without rounding (used to compare with the code). *)
Definition chroma_alpha_spec (r g b a : Z) : Q :=
  if (180 <? g) && (r <? 120) && (b <? 120) then 0%Q
  else if (150 <? g) && (7 * r <? 5 * g) && (7 * b <? 5 * g) then
    (255 * (1 - inject_Z (g - Z.max r b) / inject_Z g))%Q
  else inject_Z a.

Definition white_alpha_spec (r g b a : Z) : Q :=
  if (240 <? r) && (240 <? g) && (240 <? b) then 0%Q
  else if (220 <? r) && (220 <? g) && (220 <? b) then
    (255 * (1 - inject_Z (r + g + b) / 765))%Q
  else inject_Z a.

End Classifier.

(* ------------------------------------------------------------------ *)
(** ** The 2D canvas: drawing operations and source-over compositing *)

Module Canvas.

Local Open Scope Q_scope.

(** A canvas pixel, straight (non-premultiplied) colour channels in
    [0, 255] and alpha in [0, 1], as in CSS [rgba(...)]. *)
Record Pixel := { red : Q; green : Q; blue : Q; alpha : Q }.

Definition transparent : Pixel := {| red := 0; green := 0; blue := 0; alpha := 0 |}.
Definition white : Pixel := {| red := 255; green := 255; blue := 255; alpha := 1 |}.

(** Source-over: [outA = srcA + destA (1 - srcA)], colour weighted by the
    contributions of source and destination. *)
Definition over (s d : Pixel) : Pixel :=
  let oa := alpha s + alpha d * (1 - alpha s) in
  if Qeq_bool oa 0 then transparent
  else {| red := (red s * alpha s + red d * alpha d * (1 - alpha s)) / oa;
          green := (green s * alpha s + green d * alpha d * (1 - alpha s)) / oa;
          blue := (blue s * alpha s + blue d * alpha d * (1 - alpha s)) / oa;
          alpha := oa |}.

(** [createRadialGradient(x0, y0, r0, x1, y1, r1)] with its colour stops
    [addColorStop(offset, 'rgba(0, 0, 0, a)')], kept as [(offset, a)]. *)
Record RadialGradient := {
  gx0 : Q; gy0 : Q; gr0 : Q; gx1 : Q; gy1 : Q; gr1 : Q;
  colorStops : list (Q * Q)
}.

(** The operations the compositors issue on the context. *)
Inductive CanvasOp :=
| FillRect (color : Pixel) (rx ry rw rh : Q)
    (** [fillStyle = color; fillRect(rx, ry, rw, rh)] *)
| DrawImage (src : string) (dst : DrawRect)
    (** [drawImage(img, dx, dy, dw, dh)] *)
| FillEllipse (grad : RadialGradient) (ex ey erx ery : Q).
    (** [fillStyle = grad; beginPath(); ellipse(ex, ey, erx, ery, 0, 0, 2pi); fill()] *)

(** Alpha of a gradient at parameter [t]: the first stop's colour before
    it, the last stop's colour after the last, linear interpolation
    between two neighbouring stops. *)
Fixpoint stop_alpha (t : Q) (prev : Q * Q) (rest : list (Q * Q)) : Q :=
  match rest with
  | [] => snd prev
  | (o, a) :: rest' =>
      if Qle_bool t o then
        snd prev + (a - snd prev) * ((t - fst prev) / (o - fst prev))
      else stop_alpha t (o, a) rest'
  end.

Definition gradient_alpha (stops : list (Q * Q)) (t : Q) : Q :=
  match stops with
  | [] => 0
  | s0 :: rest => if Qle_bool t (fst s0) then snd s0 else stop_alpha t s0 rest
  end.

(** Centre of the device pixel [(i, j)]. *)
Definition centre (i : Z) : Q := inject_Z i + (1 # 2).

Definition in_rect (rx ry rw rh : Q) (i j : Z) : bool :=
  Qle_bool rx (centre i) && Qltb (centre i) (rx + rw) &&
  Qle_bool ry (centre j) && Qltb (centre j) (ry + rh).

Definition in_ellipse (ex ey erx ery : Q) (i j : Z) : bool :=
  Qle_bool ((centre i - ex) * (centre i - ex) * (ery * ery) +
            (centre j - ey) * (centre j - ey) * (erx * erx))
           (erx * erx * (ery * ery)).

Definition opaque_black (a : Q) : Pixel :=
  {| red := 0; green := 0; blue := 0; alpha := a |}.

Section Render.

(** The platform's rasteriser: the source pixel an image contributes at a
    device pixel once resampled into the destination rectangle ([None]
    outside it), and the gradient parameter of a device pixel (distance
    to the gradient centre over the end radius). *)
Variable sample : string -> DrawRect -> Z -> Z -> option Pixel.
Variable grad_t : RadialGradient -> Z -> Z -> Q.

Definition source (o : CanvasOp) (i j : Z) : option Pixel :=
  match o with
  | FillRect color rx ry rw rh =>
      if in_rect rx ry rw rh i j then Some color else None
  | DrawImage src dst => sample src dst i j
  | FillEllipse grad ex ey erx ery =>
      if in_ellipse ex ey erx ery i j
      then Some (opaque_black (gradient_alpha (colorStops grad) (grad_t grad i j)))
      else None
  end.

Definition render_op (c : Z -> Z -> Pixel) (o : CanvasOp) : Z -> Z -> Pixel :=
  fun i j => match source o i j with
             | Some s => over s (c i j)
             | None => c i j
             end.

(** A fresh canvas is transparent black. *)
Definition render (ops : list CanvasOp) : Z -> Z -> Pixel :=
  fold_left render_op ops (fun _ _ => transparent).

End Render.

(** [toDataURL('image/jpeg', 0.95)]: JPEG has no alpha channel; the canvas
    is composited onto opaque black and only RGB is kept, row by row. *)
Definition encode_jpeg (c : Z -> Z -> Pixel) (w h : Z) : list (Q * Q * Q) :=
  flat_map (fun j =>
    map (fun i => let p := c (Z.of_nat i) j in
                  (red p * alpha p, green p * alpha p, blue p * alpha p))
        (seq 0 (Z.to_nat w)))
    (map Z.of_nat (seq 0 (Z.to_nat h))).

(** Decoding a JPEG into [ImageData]: every pixel gets the alpha byte 255. *)
Definition decode_jpeg (bytes : list (Q * Q * Q)) : list (Q * Q * Q * Z) :=
  map (fun '(r, g, b) => (r, g, b, 255%Z)) bytes.

End Canvas.

(* ------------------------------------------------------------------ *)
(** ** Placement on doubles *)

Module PlacementDoubles.

(** The draw rectangle as the code holds it: four JavaScript numbers. *)
Record DrawRect64 := {
  drawX64 : float; drawY64 : float; drawW64 : float; drawH64 : float
}.

(** The placement of [compositeImages] evaluated on binary64 doubles, each
    operation rounded as JavaScript does; [imgAspect > boxAspect] is
    [boxAspect < imgAspect]. *)
Definition place (naturalWidth naturalHeight x y width height : float) : DrawRect64 :=
  let imgAspect := PrimFloat.div naturalWidth naturalHeight in
  let boxAspect := PrimFloat.div width height in
  if PrimFloat.ltb boxAspect imgAspect then
    let drawW := width in
    let drawH := PrimFloat.div width imgAspect in
    {| drawX64 := x; drawY64 := PrimFloat.sub (PrimFloat.add y height) drawH;
       drawW64 := drawW; drawH64 := drawH |}
  else
    let drawH := height in
    let drawW := PrimFloat.mul height imgAspect in
    {| drawX64 := PrimFloat.add x (PrimFloat.div (PrimFloat.sub width drawW) 2);
       drawY64 := PrimFloat.sub (PrimFloat.add y height) drawH;
       drawW64 := drawW; drawH64 := drawH |}.

End PlacementDoubles.

(* ------------------------------------------------------------------ *)
(** ** The compositors as traces of canvas operations *)

Module Compositor.

Import Canvas.
Local Open Scope Q_scope.

(** [compositeImages(sceneImageUrl, productImageUrl, compositing)], the
    product image having natural size [naturalWidth x naturalHeight]. *)
Definition compositeImages (sceneImageUrl productImageUrl : string)
    (naturalWidth naturalHeight : Q) (compositing : CompositingData)
  : list CanvasOp :=
  let cW := inject_Z (canvasWidth compositing) in
  let cH := inject_Z (canvasHeight compositing) in
  let d := place naturalWidth naturalHeight (productPosition compositing) in
  let dX := drawX d in let dY := drawY d in
  let dW := drawW d in let dH := drawH d in
  let ambientGradient :=
    {| gx0 := dX + dW / 2; gy0 := dY + dH; gr0 := 0;
       gx1 := dX + dW / 2; gy1 := dY + dH; gr1 := dW * 0.7;
       colorStops := [(0, 0.10); (0.4, 0.05); (0.7, 0.02); (1, 0)] |} in
  let contactGradient :=
    {| gx0 := dX + dW / 2 + dW * 0.03; gy0 := dY + dH; gr0 := 0;
       gx1 := dX + dW / 2 + dW * 0.03; gy1 := dY + dH; gr1 := dW * 0.38;
       colorStops := [(0, 0.18); (0.4, 0.08); (1, 0)] |} in
  let coreGradient :=
    {| gx0 := dX + dW / 2; gy0 := dY + dH; gr0 := 0;
       gx1 := dX + dW / 2; gy1 := dY + dH; gr1 := dW * 0.22;
       colorStops := [(0, 0.28); (0.5, 0.10); (1, 0)] |} in
  [ FillRect white 0 0 cW cH;
    DrawImage sceneImageUrl {| drawX := 0; drawY := 0; drawW := cW; drawH := cH |};
    FillEllipse ambientGradient (dX + dW / 2) (dY + dH + 4) (dW * 0.65) (dH * 0.06);
    FillEllipse contactGradient (dX + dW / 2 + dW * 0.03) (dY + dH + 2) (dW * 0.38) (dH * 0.025);
    FillEllipse coreGradient (dX + dW / 2) (dY + dH + 1) (dW * 0.22) (dH * 0.012);
    DrawImage productImageUrl d ].

(** [compositeProductOnBackdrop(backdropUrl, productUrl)]: canvas of the
    backdrop's natural size, product sized into 60% x 65% of it. *)
Definition compositeProductOnBackdrop (backdropUrl productUrl : string)
    (backdropWidth backdropHeight : Z) (naturalWidth naturalHeight : Q)
  : list CanvasOp :=
  let cW := inject_Z backdropWidth in
  let cH := inject_Z backdropHeight in
  let maxW := cW * 0.6 in
  let maxH := cH * 0.65 in
  let imgAspect := naturalWidth / naturalHeight in
  let '(dW, dH) := if Qltb (maxW / maxH) imgAspect
                   then (maxW, maxW / imgAspect)
                   else (maxH * imgAspect, maxH) in
  let dX := (cW - dW) / 2 in
  let dY := cH * 0.55 - dH / 2 in
  let ambientGradient :=
    {| gx0 := dX + dW / 2; gy0 := dY + dH; gr0 := 0;
       gx1 := dX + dW / 2; gy1 := dY + dH; gr1 := dW * 0.7;
       colorStops := [(0, 0.12); (0.4, 0.05); (1, 0)] |} in
  let contactGradient :=
    {| gx0 := dX + dW / 2; gy0 := dY + dH; gr0 := 0;
       gx1 := dX + dW / 2; gy1 := dY + dH; gr1 := dW * 0.25;
       colorStops := [(0, 0.22); (0.5, 0.08); (1, 0)] |} in
  [ DrawImage backdropUrl {| drawX := 0; drawY := 0; drawW := cW; drawH := cH |};
    FillEllipse ambientGradient (dX + dW / 2) (dY + dH + 4) (dW * 0.6) (dH * 0.05);
    FillEllipse contactGradient (dX + dW / 2) (dY + dH + 2) (dW * 0.25) (dH * 0.015);
    DrawImage productUrl {| drawX := dX; drawY := dY; drawW := dW; drawH := dH |} ].

(** [stripTransparency(imageUrl)]: a canvas of the image's natural size,
    filled white, the image drawn at [(0, 0)] at its natural size. *)
Definition stripTransparency (imageUrl : string) (naturalWidth naturalHeight : Z)
  : list CanvasOp :=
  let cW := inject_Z naturalWidth in
  let cH := inject_Z naturalHeight in
  [ FillRect white 0 0 cW cH;
    DrawImage imageUrl {| drawX := 0; drawY := 0; drawW := cW; drawH := cH |} ].

(** The gradient ellipse fills of a trace, in the order they are painted. *)
Definition shadow_fills (ops : list CanvasOp) : list (RadialGradient * (Q * Q * Q * Q)) :=
  flat_map (fun o => match o with
                     | FillEllipse g ex ey erx ery => [(g, (ex, ey, erx, ery))]
                     | _ => []
                     end) ops.

(** Default element for [last]. *)
Definition nop : CanvasOp := FillRect transparent 0 0 0 0.

(** Peak alpha of a gradient: the alpha of its first colour stop. *)
Definition peak_alpha (g : RadialGradient) : Q :=
  match colorStops g with
  | [] => 0
  | (_, a) :: _ => a
  end.

(** The spec's reading of the shadow synthesizer: three ellipses sharing
    one centre. *)
Definition three_concentric_shadows (ops : list CanvasOp) : Prop :=
  exists g1 g2 g3 x1 y1 x2 y2 x3 y3 a1 b1 a2 b2 a3 b3,
    shadow_fills ops =
      [(g1, (x1, y1, a1, b1)); (g2, (x2, y2, a2, b2)); (g3, (x3, y3, a3, b3))] /\
    x1 == x2 /\ y1 == y2 /\ x2 == x3 /\ y2 == y3.

End Compositor.

(* ------------------------------------------------------------------ *)
(** ** The generation pipeline of [generateCreative] *)

Module Pipeline.

Local Open Scope string_scope.

(** Outcome of an awaited call: a value, or a thrown error. *)
Inductive Result (A : Type) :=
| Ok (v : A)
| Throw (err : string).
Arguments Ok {A} v.
Arguments Throw {A} err.

Definition bind {A B} (m : Result A) (k : A -> Result B) : Result B :=
  match m with Ok v => k v | Throw e => Throw e end.

Notation "x <- m ;; k" := (bind m (fun x => k)) (at level 61, m at next level, right associativity).

(** [try { ... } catch { ... }] keeping [fallback] when the body throws. *)
Definition catch_or {A} (m : Result A) (fallback : A) : A :=
  match m with Ok v => v | Throw _ => fallback end.

Inductive CreativeStatus := generating | completed | error.

Record GeneratedCreative := {
  id : string;
  status : CreativeStatus;
  outputImageUrl : option string
}.

(** Response of the [remove-background] function. *)
Record BgData := { success : bool; cutoutBase64 : string; bgErrorMessage : string }.

(** Response of the [generate-creative] function. *)
Record CreativeData := { imageUrl : string; compositing : option CompositingData }.

(** The collaborators the pipeline awaits. *)
Record Env := {
  removeBackground : Result BgData;
  invokeGenerateCreative : string -> Result CreativeData;
  compositeImages : string -> string -> CompositingData -> Result string;
  stripTransparency : string -> Result string
}.

Definition cutoutUrl_of (cutoutBase64 : string) : string :=
  if String.prefix "data:" cutoutBase64 then cutoutBase64
  else "data:image/png;base64," ++ cutoutBase64.

(** The body of the outer [try] of [generateCreative]: the image URL the
    creative is completed with. *)
Definition generate_body (env : Env) : Result string :=
  bgData <- removeBackground env ;;
  if negb (success bgData) then Throw (bgErrorMessage bgData) else
  let cutoutUrl := cutoutUrl_of (cutoutBase64 bgData) in
  data <- invokeGenerateCreative env cutoutUrl ;;
  let finalImageUrl := imageUrl data in
  let finalImageUrl :=
    match compositing data with
    | Some c =>
        if enabled c
        then catch_or (compositeImages env (imageUrl data) cutoutUrl c) finalImageUrl
        else finalImageUrl
    | None => finalImageUrl
    end in
  let finalImageUrl := catch_or (stripTransparency env finalImageUrl) finalImageUrl in
  Ok finalImageUrl.

(** [generateCreative]: append a [generating] entry, then mark it
    [completed] with the output URL, or [error] if the body throws. *)
Definition generateCreative (env : Env) (creativeId : string)
    (creatives : list GeneratedCreative) : list GeneratedCreative :=
  let creatives := app creatives
    [{| id := creativeId; status := generating; outputImageUrl := None |}] in
  match generate_body env with
  | Ok finalImageUrl =>
      map (fun c => if String.eqb (id c) creativeId
                    then {| id := id c; status := completed;
                            outputImageUrl := Some finalImageUrl |}
                    else c) creatives
  | Throw _ =>
      map (fun c => if String.eqb (id c) creativeId
                    then {| id := id c; status := error;
                            outputImageUrl := outputImageUrl c |}
                    else c) creatives
  end.

End Pipeline.

(* ------------------------------------------------------------------ *)
(** ** The hook's own state transitions: scan, image analysis, brand kit,
    step navigation *)

Module Hook.

Import Pipeline.
Local Open Scope string_scope.

Section HookState.

(** The payload types the hook stores without inspecting them. *)
Variables ProductData AdCopy ProductColors DetectedFonts ConfirmedBrandKit : Type.

Record HookState := {
  step : Z;
  isLoading : bool;
  loadingStage : string;
  productData : option ProductData;
  scannedUrl : string;
  adCopies : list AdCopy;
  productImageBase64 : option string;
  productColors : option ProductColors;
  detectedFonts : option DetectedFonts;
  isAnalyzingImage : bool;
  confirmedBrandKit : option ConfirmedBrandKit
}.

(** [useState] initial values. *)
Definition initialState : HookState :=
  {| step := 1; isLoading := false; loadingStage := ""; productData := None;
     scannedUrl := ""; adCopies := []; productImageBase64 := None;
     productColors := None; detectedFonts := None; isAnalyzingImage := false;
     confirmedBrandKit := None |}.

(** One setter per [useState] pair. *)
Definition setStep (v : Z) (s : HookState) : HookState :=
  {| step := v; isLoading := isLoading s; loadingStage := loadingStage s;
     productData := productData s; scannedUrl := scannedUrl s; adCopies := adCopies s;
     productImageBase64 := productImageBase64 s; productColors := productColors s;
     detectedFonts := detectedFonts s; isAnalyzingImage := isAnalyzingImage s;
     confirmedBrandKit := confirmedBrandKit s |}.
Definition setIsLoading (v : bool) (s : HookState) : HookState :=
  {| step := step s; isLoading := v; loadingStage := loadingStage s;
     productData := productData s; scannedUrl := scannedUrl s; adCopies := adCopies s;
     productImageBase64 := productImageBase64 s; productColors := productColors s;
     detectedFonts := detectedFonts s; isAnalyzingImage := isAnalyzingImage s;
     confirmedBrandKit := confirmedBrandKit s |}.
Definition setLoadingStage (v : string) (s : HookState) : HookState :=
  {| step := step s; isLoading := isLoading s; loadingStage := v;
     productData := productData s; scannedUrl := scannedUrl s; adCopies := adCopies s;
     productImageBase64 := productImageBase64 s; productColors := productColors s;
     detectedFonts := detectedFonts s; isAnalyzingImage := isAnalyzingImage s;
     confirmedBrandKit := confirmedBrandKit s |}.
Definition setProductData (v : ProductData) (s : HookState) : HookState :=
  {| step := step s; isLoading := isLoading s; loadingStage := loadingStage s;
     productData := Some v; scannedUrl := scannedUrl s; adCopies := adCopies s;
     productImageBase64 := productImageBase64 s; productColors := productColors s;
     detectedFonts := detectedFonts s; isAnalyzingImage := isAnalyzingImage s;
     confirmedBrandKit := confirmedBrandKit s |}.
Definition setScannedUrl (v : string) (s : HookState) : HookState :=
  {| step := step s; isLoading := isLoading s; loadingStage := loadingStage s;
     productData := productData s; scannedUrl := v; adCopies := adCopies s;
     productImageBase64 := productImageBase64 s; productColors := productColors s;
     detectedFonts := detectedFonts s; isAnalyzingImage := isAnalyzingImage s;
     confirmedBrandKit := confirmedBrandKit s |}.
Definition setAdCopies (v : list AdCopy) (s : HookState) : HookState :=
  {| step := step s; isLoading := isLoading s; loadingStage := loadingStage s;
     productData := productData s; scannedUrl := scannedUrl s; adCopies := v;
     productImageBase64 := productImageBase64 s; productColors := productColors s;
     detectedFonts := detectedFonts s; isAnalyzingImage := isAnalyzingImage s;
     confirmedBrandKit := confirmedBrandKit s |}.
Definition setProductImageBase64 (v : string) (s : HookState) : HookState :=
  {| step := step s; isLoading := isLoading s; loadingStage := loadingStage s;
     productData := productData s; scannedUrl := scannedUrl s; adCopies := adCopies s;
     productImageBase64 := Some v; productColors := productColors s;
     detectedFonts := detectedFonts s; isAnalyzingImage := isAnalyzingImage s;
     confirmedBrandKit := confirmedBrandKit s |}.
Definition setProductColors (v : ProductColors) (s : HookState) : HookState :=
  {| step := step s; isLoading := isLoading s; loadingStage := loadingStage s;
     productData := productData s; scannedUrl := scannedUrl s; adCopies := adCopies s;
     productImageBase64 := productImageBase64 s; productColors := Some v;
     detectedFonts := detectedFonts s; isAnalyzingImage := isAnalyzingImage s;
     confirmedBrandKit := confirmedBrandKit s |}.
Definition setDetectedFonts (v : DetectedFonts) (s : HookState) : HookState :=
  {| step := step s; isLoading := isLoading s; loadingStage := loadingStage s;
     productData := productData s; scannedUrl := scannedUrl s; adCopies := adCopies s;
     productImageBase64 := productImageBase64 s; productColors := productColors s;
     detectedFonts := Some v; isAnalyzingImage := isAnalyzingImage s;
     confirmedBrandKit := confirmedBrandKit s |}.
Definition setIsAnalyzingImage (v : bool) (s : HookState) : HookState :=
  {| step := step s; isLoading := isLoading s; loadingStage := loadingStage s;
     productData := productData s; scannedUrl := scannedUrl s; adCopies := adCopies s;
     productImageBase64 := productImageBase64 s; productColors := productColors s;
     detectedFonts := detectedFonts s; isAnalyzingImage := v;
     confirmedBrandKit := confirmedBrandKit s |}.
Definition setConfirmedBrandKit (v : ConfirmedBrandKit) (s : HookState) : HookState :=
  {| step := step s; isLoading := isLoading s; loadingStage := loadingStage s;
     productData := productData s; scannedUrl := scannedUrl s; adCopies := adCopies s;
     productImageBase64 := productImageBase64 s; productColors := productColors s;
     detectedFonts := detectedFonts s; isAnalyzingImage := isAnalyzingImage s;
     confirmedBrandKit := Some v |}.

(** [data || 'default'] on an optional error message. *)
Definition or_default (m : option string) (d : string) : string :=
  match m with Some e => e | None => d end.

(** Response of [scrape-shopify]. *)
Record ScrapeData := {
  scrapeSuccess : bool; scrapedProduct : option ProductData; scrapeError : option string }.

(** Response of [generate-ad-copy]. *)
Record AdCopyData := {
  adSuccess : bool; adCopiesField : option (list AdCopy); adError : option string }.

(** Response of [analyze-product-image]. *)
Record AnalyzeData := {
  analyzeSuccess : bool; dominantColors : option ProductColors;
  fontsField : option DetectedFonts; analyzeError : option string }.

(** [generateAdCopyInternal], given the outcome of the invoke call. *)
Definition generateAdCopyInternal (response : Result AdCopyData) : Result (list AdCopy) :=
  data <- response ;;
  match adSuccess data, adCopiesField data with
  | true, Some copies => Ok copies
  | _, _ => Throw (or_default (adError data) "Failed to generate ad copy")
  end.

(** [scanShopifyUrl(url)], given the outcome of the scrape call and of the
    ad-copy call for the scraped product. *)
Definition scanShopifyUrl (scrape : Result ScrapeData)
    (adCopyCall : ProductData -> Result AdCopyData) (url : string)
    (s : HookState) : HookState :=
  let s := setLoadingStage "Connecting to store..." (setScannedUrl url (setIsLoading true s)) in
  let body :=
    data <- scrape ;;
    match scrapeSuccess data, scrapedProduct data with
    | true, Some pd => Ok pd
    | _, _ => Throw (or_default (scrapeError data) "Failed to scan product")
    end in
  let s :=
    match body with
    | Ok pd =>
        let s := setLoadingStage "Generating ad copy..." (setProductData pd s) in
        let s := setAdCopies (catch_or (generateAdCopyInternal (adCopyCall pd)) []) s in
        setStep 2 (setLoadingStage "Complete!" s)
    | Throw _ => s
    end in
  setLoadingStage "" (setIsLoading false s).

(** [analyzeProductImage(base64)], given the outcome of the invoke call. *)
Definition analyzeProductImage (response : Result AnalyzeData) (base64 : string)
    (s : HookState) : HookState :=
  let s := setProductImageBase64 base64 (setIsAnalyzingImage true s) in
  let s :=
    match response with
    | Ok data =>
        match analyzeSuccess data, dominantColors data with
        | true, Some colors =>
            let s := setProductColors colors s in
            match fontsField data with
            | Some fonts => setDetectedFonts fonts s
            | None => s
            end
        | _, _ => s
        end
    | Throw _ => s
    end in
  setIsAnalyzingImage false s.

Definition confirmBrandKit (brandKit : ConfirmedBrandKit) (s : HookState) : HookState :=
  setStep 4 (setConfirmedBrandKit brandKit s).

Definition nextStep (s : HookState) : HookState := setStep (Z.min (step s + 1) 4) s.
Definition prevStep (s : HookState) : HookState := setStep (Z.max (step s - 1) 1) s.

(** The actions the hook returns, except the raw [setStep]. *)
Inductive Action :=
| AScan (scrape : Result ScrapeData) (adCopyCall : ProductData -> Result AdCopyData) (url : string)
| AAnalyze (response : Result AnalyzeData) (base64 : string)
| AConfirm (brandKit : ConfirmedBrandKit)
| ANext
| APrev.

Definition perform (s : HookState) (a : Action) : HookState :=
  match a with
  | AScan scrape adCopyCall url => scanShopifyUrl scrape adCopyCall url s
  | AAnalyze response base64 => analyzeProductImage response base64 s
  | AConfirm brandKit => confirmBrandKit brandKit s
  | ANext => nextStep s
  | APrev => prevStep s
  end.

Definition run (acts : list Action) : HookState := fold_left perform acts initialState.

End HookState.

Arguments step {_ _ _ _ _} _.
Arguments isLoading {_ _ _ _ _} _.
Arguments loadingStage {_ _ _ _ _} _.
Arguments productData {_ _ _ _ _} _.
Arguments scannedUrl {_ _ _ _ _} _.
Arguments adCopies {_ _ _ _ _} _.
Arguments productImageBase64 {_ _ _ _ _} _.
Arguments productColors {_ _ _ _ _} _.
Arguments detectedFonts {_ _ _ _ _} _.
Arguments isAnalyzingImage {_ _ _ _ _} _.
Arguments confirmedBrandKit {_ _ _ _ _} _.
Arguments scrapeSuccess {_} _.
Arguments scrapedProduct {_} _.
Arguments scrapeError {_} _.
Arguments adSuccess {_} _.
Arguments adCopiesField {_} _.
Arguments adError {_} _.
Arguments analyzeSuccess {_ _} _.
Arguments dominantColors {_ _} _.
Arguments fontsField {_ _} _.
Arguments analyzeError {_ _} _.
Arguments generateAdCopyInternal {_} _.
Arguments scanShopifyUrl {_ _ _ _ _} _ _ _ _.
Arguments analyzeProductImage {_ _ _ _ _} _ _ _.
Arguments confirmBrandKit {_ _ _ _ _} _ _.
Arguments nextStep {_ _ _ _ _} _.
Arguments prevStep {_ _ _ _ _} _.
Arguments AScan {_ _ _ _ _} _ _ _.
Arguments AAnalyze {_ _ _ _ _} _ _.
Arguments AConfirm {_ _ _ _ _} _.
Arguments ANext {_ _ _ _ _}.
Arguments APrev {_ _ _ _ _}.
Arguments perform {_ _ _ _ _} _ _.

End Hook.

(* ------------------------------------------------------------------ *)
(** ** [resizeBase64Image] *)

Module Resize.

Import Canvas.
Local Open Scope Q_scope.

(** [Math.round] on an exact value: nearest integer, ties towards +oo. *)
Definition round (q : Q) : Z := Qfloor (q + (1 # 2)).

(** [Math.min]. *)
Definition Qmin2 (a b : Q) : Q := if Qle_bool a b then a else b.

(** Outcome of [resizeBase64Image]: the input URL itself, or a JPEG of an
    [nw x nh] canvas on which the image was drawn. *)
Inductive Resized :=
| Unchanged (imageUrl : string)
| Jpeg (nw nh : Z) (ops : list CanvasOp).

(** [resizeBase64Image(imageUrl, maxDim)] for an image of natural size
    [w x h], in exact arithmetic. *)
Definition resizeBase64Image (imageUrl : string) (w h maxDim : Z) : Resized :=
  if (w <=? maxDim)%Z && (h <=? maxDim)%Z then Unchanged imageUrl
  else
    let scale := Qmin2 (inject_Z maxDim / inject_Z w) (inject_Z maxDim / inject_Z h) in
    let nw := round (inject_Z w * scale) in
    let nh := round (inject_Z h * scale) in
    Jpeg nw nh [DrawImage imageUrl {| drawX := 0; drawY := 0;
                                      drawW := inject_Z nw; drawH := inject_Z nh |}].

End Resize.

(* ================================================================== *)
(** * Properties *)

(* ------------------------------------------------------------------ *)
(** ** Placement *)

Module PlacementFacts.

Local Open Scope Q_scope.

Lemma Qdiv_pos (a b : Q) : 0 < a -> 0 < b -> 0 < a / b.
Proof.
  intros Ha Hb. unfold Qdiv. apply Qmult_lt_0_compat; [exact Ha|].
  apply Qinv_lt_0_compat. exact Hb.
Qed.

Lemma Qpos_nonzero (a : Q) : 0 < a -> ~ a == 0.
Proof. intros Ha Heq. rewrite Heq in Ha. discriminate Ha. Qed.

(** C4: for a product of positive natural size and a box of positive
    size, the drawn rectangle has the product's aspect ratio. *)
Theorem place_preserves_aspect (naturalWidth naturalHeight : Q) (pos : ProductPosition)
    (Hnw : 0 < naturalWidth) (Hnh : 0 < naturalHeight)
    (Hw : 0 < width pos) (Hh : 0 < height pos) :
  let d := place naturalWidth naturalHeight pos in
  drawW d / drawH d == naturalWidth / naturalHeight.
Proof.
  unfold place; cbv zeta.
  assert (Ha : 0 < naturalWidth / naturalHeight) by (apply Qdiv_pos; assumption).
  pose proof (Qpos_nonzero _ Hnw). pose proof (Qpos_nonzero _ Hnh).
  pose proof (Qpos_nonzero _ Hw). pose proof (Qpos_nonzero _ Hh).
  destruct (Qltb (width pos / height pos) (naturalWidth / naturalHeight)); simpl.
  - field. repeat split; assumption.
  - field. split; assumption.
Qed.

Lemma place_preserves_aspect_witness :
  (0 < 100 /\ 0 < 200 /\ 0 < 300 /\ 0 < 100) /\
  (let d := place 100 200 {| x := 0; y := 0; width := 300; height := 100 |} in
   drawW d / drawH d == 100 / 200).
Proof.
  split; [repeat split; reflexivity|].
  apply (place_preserves_aspect 100 200 {| x := 0; y := 0; width := 300; height := 100 |});
    reflexivity.
Defined.

(** C5: product 100x200 into the box {x:0, y:0, w:300, h:100}. *)
Theorem place_portrait_in_wide_box :
  let d := place 100 200 {| x := 0; y := 0; width := 300; height := 100 |} in
  drawH d == 100 /\ drawW d == 50 /\ drawY d == 0 /\ drawX d == 125.
Proof. vm_compute. repeat split; reflexivity. Qed.



End PlacementFacts.

(* ------------------------------------------------------------------ *)
(** ** Compositing failure falls back to the AI output *)

Module PipelineFacts.

Import Pipeline.

(** C9: when the [compositeImages] step throws, the creative is still
    completed, with the uncomposited AI image (passed through
    [stripTransparency], or as it is if that throws too). *)
Theorem compositing_failure_falls_back (env : Env) (creativeId : string)
    (creatives : list GeneratedCreative) (bgData : BgData) (data : CreativeData)
    (c : CompositingData) (err : string)
    (Hbg : removeBackground env = Ok bgData)
    (Hsuccess : success bgData = true)
    (Hgen : invokeGenerateCreative env (cutoutUrl_of (cutoutBase64 bgData)) = Ok data)
    (Hcomp : compositing data = Some c)
    (Henabled : enabled c = true)
    (Hthrow : compositeImages env (imageUrl data) (cutoutUrl_of (cutoutBase64 bgData)) c
              = Throw err) :
  let delivered := catch_or (stripTransparency env (imageUrl data)) (imageUrl data) in
  generate_body env = Ok delivered /\
  exists before,
    generateCreative env creativeId creatives =
      before ++ [{| id := creativeId; status := completed;
                    outputImageUrl := Some delivered |}].
Proof.
  cbv zeta.
  assert (Hbody : generate_body env =
                  Ok (catch_or (stripTransparency env (imageUrl data)) (imageUrl data))).
  { unfold generate_body. rewrite Hbg. simpl. rewrite Hsuccess. simpl.
    rewrite Hgen. simpl. rewrite Hcomp, Henabled, Hthrow. reflexivity. }
  split; [exact Hbody|].
  unfold generateCreative. rewrite Hbody. rewrite map_app. simpl.
  rewrite String.eqb_refl. eexists. reflexivity.
Qed.

Definition sample_position : ProductPosition :=
  {| x := 100; y := 100; width := 200; height := 200 |}.

Definition sample_compositing : CompositingData :=
  {| enabled := true; canvasWidth := 400; canvasHeight := 400;
     productPosition := sample_position |}.

Definition failing_env : Env :=
  {| removeBackground := Ok {| success := true; cutoutBase64 := "iVBORw0KGgo";
                               bgErrorMessage := "" |};
     invokeGenerateCreative := fun _ =>
       Ok {| imageUrl := "data:image/png;base64,AAAA";
             compositing := Some sample_compositing |};
     compositeImages := fun _ _ _ => Throw "image failed to load";
     stripTransparency := fun u => Ok ("data:image/jpeg;base64,flat:" ++ u)%string |}.

Lemma compositing_failure_falls_back_witness :
  let delivered := "data:image/jpeg;base64,flat:data:image/png;base64,AAAA"%string in
  generate_body failing_env = Ok delivered /\
  exists before,
    generateCreative failing_env "creative_1" [] =
      before ++ [{| id := "creative_1"; status := completed;
                    outputImageUrl := Some delivered |}].
Proof.
  exact (compositing_failure_falls_back failing_env "creative_1" []
           {| success := true; cutoutBase64 := "iVBORw0KGgo"; bgErrorMessage := "" |}
           {| imageUrl := "data:image/png;base64,AAAA";
              compositing := Some sample_compositing |}
           sample_compositing "image failed to load"
           eq_refl eq_refl eq_refl eq_refl eq_refl eq_refl).
Defined.

End PipelineFacts.

(* ------------------------------------------------------------------ *)
(** ** Classifiers *)

Module ClassifierFacts.

Import Classifier.
Local Open Scope Z_scope.

(** An [ImageData] buffer as the list of its RGBA pixels. *)
Fixpoint pixels (ps : list (Z * Z * Z * Z)) : list Z :=
  match ps with
  | [] => []
  | (r, g, b, a) :: ps' => r :: g :: b :: a :: pixels ps'
  end.

Definition with_alpha (f : Z -> Z -> Z -> Z -> Z) (p : Z * Z * Z * Z) : Z * Z * Z * Z :=
  let '(r, g, b, a) := p in (r, g, b, f r g b a).

Lemma pixel_pass_pixels (f : Z -> Z -> Z -> Z -> Z) (ps : list (Z * Z * Z * Z))
    (rest : list Z) :
  pixel_pass f (pixels ps ++ rest) = pixels (map (with_alpha f) ps) ++ pixel_pass f rest.
Proof.
  induction ps as [|[[[r g] b] a] ps IH]; simpl; [reflexivity|].
  rewrite IH. reflexivity.
Qed.

(** A pass is idempotent as soon as its new alpha does not depend on the
    alpha it replaces once it has been replaced. *)
Lemma pixel_pass_idempotent (f : Z -> Z -> Z -> Z -> Z)
    (Hf : forall r g b a, f r g b (f r g b a) = f r g b a) (data : list Z) :
  pixel_pass f (pixel_pass f data) = pixel_pass f data.
Proof.
  revert data. fix IH 1.
  intros [|r [|g [|b [|a rest]]]]; simpl; try reflexivity.
  rewrite Hf, IH. reflexivity.
Qed.

Lemma chroma_alpha_stable (r g b a : Z) :
  chroma_alpha r g b (chroma_alpha r g b a) = chroma_alpha r g b a.
Proof.
  unfold chroma_alpha.
  destruct ((180 <? g) && (r <? 120) && (b <? 120)); [reflexivity|].
  destruct ((150 <? g) && gt_times_1_4 g r && gt_times_1_4 g b); reflexivity.
Qed.

Lemma white_alpha_stable (r g b a : Z) :
  white_alpha r g b (white_alpha r g b a) = white_alpha r g b a.
Proof.
  unfold white_alpha.
  destruct ((240 <? r) && (240 <? g) && (240 <? b)); [reflexivity|].
  destruct ((220 <? r) && (220 <? g) && (220 <? b)); reflexivity.
Qed.

(** C8: running either per-pixel pass a second time changes nothing. *)
Theorem classifier_passes_idempotent (data : list Z) :
  removeWhiteBackground_pass (removeWhiteBackground_pass data)
    = removeWhiteBackground_pass data /\
  chromaKeyGreen_pass (chromaKeyGreen_pass data) = chromaKeyGreen_pass data.
Proof.
  split.
  - apply pixel_pass_idempotent, white_alpha_stable.
  - apply pixel_pass_idempotent, chroma_alpha_stable.
Qed.

(** C6 as stated (exact thresholds, unrounded alpha) fails on the pixel
    (165, 231, 0, 255): on doubles [165 * 1.4 = 230.99999999999997 < 231],
    so the code enters the soft band and writes alpha 182, where the
    exact-arithmetic rule leaves the pixel unchanged. *)
Lemma chroma_rule_as_stated_fails :
  ~ (forall r g b a, 0 <= r <= 255 -> 0 <= g <= 255 -> 0 <= b <= 255 -> 0 <= a <= 255 ->
     (inject_Z (chroma_alpha r g b a) == chroma_alpha_spec r g b a)%Q).
Proof.
  intro H. specialize (H 165 231 0 255 ltac:(lia) ltac:(lia) ltac:(lia) ltac:(lia)).
  vm_compute in H. discriminate H.
Qed.

(** C6 (amended): [chromaKeyGreen]'s loop rewrites every pixel of the
    buffer independently, keeping R, G, B and setting alpha to 0 in the
    hard band, to [Math.round(255 * (1 - greenness))] (on doubles) in the
    soft band whose tests [g > r * 1.4], [g > b * 1.4] are taken on
    doubles, and leaving it otherwise; a 2x2 #00FF00 image ends with alpha
    0 everywhere. *)
Theorem chromaKeyGreen_pixels (ps : list (Z * Z * Z * Z)) :
  chromaKeyGreen_pass (pixels ps) =
    pixels (map (fun '(r, g, b, a) =>
      (r, g, b,
       if (180 <? g) && (r <? 120) && (b <? 120) then 0
       else if (150 <? g) && gt_times_1_4 g r && gt_times_1_4 g b then
         uint8_clamp (js_round (PrimFloat.mul (fl 255)
           (PrimFloat.sub (fl 1) (PrimFloat.div (fl (g - Z.max r b)) (fl g)))))
       else a)) ps) /\
  chromaKeyGreen_pass (pixels (repeat (0, 255, 0, 255) 4)) =
    pixels (repeat (0, 255, 0, 0) 4).
Proof.
  split.
  - unfold chromaKeyGreen_pass. rewrite <- (app_nil_r (pixels ps)).
    rewrite pixel_pass_pixels. simpl pixel_pass. rewrite app_nil_r.
    reflexivity.
  - vm_compute. reflexivity.
Qed.

(** Rounded alpha of the soft white band, in integer arithmetic:
    [round((765 - s) / 3)] for the channel sum [s]. *)
Definition white_soft_alpha (s : Z) : Z := (2 * (765 - s) + 3) / 6.

Definition white_round_ok (s : Z) : bool :=
  Z.eqb (uint8_clamp (js_round (PrimFloat.mul (fl 255)
           (PrimFloat.sub (fl 1) (PrimFloat.div (fl s) (PrimFloat.mul (fl 255) (fl 3)))))))
        (white_soft_alpha s).

Lemma white_round_ok_all : forallb white_round_ok (map Z.of_nat (seq 663 103)) = true.
Proof. vm_compute. reflexivity. Qed.

(** On every channel sum of the soft band the double computation of the
    code rounds to the exact value. *)
Lemma white_round_exact (s : Z) : 663 <= s <= 765 -> white_round_ok s = true.
Proof.
  intros Hs. pose proof white_round_ok_all as Hall.
  rewrite forallb_forall in Hall. apply Hall.
  apply in_map_iff. exists (Z.to_nat s). split; [lia|].
  apply in_seq. lia.
Qed.

Definition is_byte (v : Z) : Prop := 0 <= v <= 255.

Lemma white_alpha_exact (r g b a : Z) :
  is_byte r -> is_byte g -> is_byte b ->
  white_alpha r g b a =
    if (240 <? r) && (240 <? g) && (240 <? b) then 0
    else if (220 <? r) && (220 <? g) && (220 <? b) then white_soft_alpha (r + g + b)
    else a.
Proof.
  unfold is_byte, white_alpha. intros Hr Hg Hb.
  destruct ((240 <? r) && (240 <? g) && (240 <? b)); [reflexivity|].
  destruct ((220 <? r) && (220 <? g) && (220 <? b)) eqn:E; [|reflexivity].
  rewrite !andb_true_iff, !Z.ltb_lt in E.
  pose proof (white_round_exact (r + g + b) ltac:(lia)) as Hok.
  unfold white_round_ok in Hok. apply Z.eqb_eq in Hok. exact Hok.
Qed.

Lemma white_soft_alpha_Qfloor (s : Z) :
  white_soft_alpha s = Qround.Qfloor (255 * (1 - inject_Z s / 765) + (1 # 2))%Q.
Proof.
  unfold white_soft_alpha.
  transitivity (Qround.Qfloor ((2 * (765 - s) + 3) # 6)); [reflexivity|].
  apply Qround.Qfloor_comp. rewrite Qmake_Qdiv.
  rewrite <- Z.add_opp_r.
  rewrite inject_Z_plus, inject_Z_mult, inject_Z_plus, inject_Z_opp.
  change (inject_Z (Zpos 6)) with (6 # 1)%Q.
  field.
Qed.

(** C7 as stated (unrounded alpha) fails on the pixel (221, 221, 222, 255):
    the code writes [Math.round(33.67) = 34], the formula gives [101/3]. *)
Lemma white_rule_as_stated_fails :
  ~ (forall r g b a, 0 <= r <= 255 -> 0 <= g <= 255 -> 0 <= b <= 255 -> 0 <= a <= 255 ->
     (inject_Z (white_alpha r g b a) == white_alpha_spec r g b a)%Q).
Proof.
  intro H. specialize (H 221 221 222 255 ltac:(lia) ltac:(lia) ltac:(lia) ltac:(lia)).
  vm_compute in H. discriminate H.
Qed.

(** C7 (amended): [removeWhiteBackground]'s loop keeps R, G, B of every
    pixel of a byte buffer and sets alpha to 0 when r, g, b > 240, to
    [Math.round(255 * (1 - (r + g + b) / 765))] (which the doubles compute
    exactly) when r, g, b > 220, and leaves it otherwise; (255, 255, 255)
    gets 0, (230, 230, 230) gets 25, (0, 0, 0, 255) keeps 255. *)
Theorem removeWhiteBackground_pixels (ps : list (Z * Z * Z * Z))
    (Hbytes : Forall (fun '(r, g, b, _) => is_byte r /\ is_byte g /\ is_byte b) ps) :
  removeWhiteBackground_pass (pixels ps) =
    pixels (map (fun '(r, g, b, a) =>
      (r, g, b,
       if (240 <? r) && (240 <? g) && (240 <? b) then 0
       else if (220 <? r) && (220 <? g) && (220 <? b) then
         Qround.Qfloor (255 * (1 - inject_Z (r + g + b) / 765) + (1 # 2))%Q
       else a)) ps) /\
  white_alpha 255 255 255 255 = 0 /\
  (0 < white_alpha 230 230 230 255 < 255) /\
  white_alpha 0 0 0 255 = 255.
Proof.
  split; [|vm_compute; repeat split; reflexivity].
  unfold removeWhiteBackground_pass. rewrite <- (app_nil_r (pixels ps)).
  rewrite pixel_pass_pixels. simpl pixel_pass. rewrite app_nil_r.
  f_equal. apply map_ext_Forall.
  refine (Forall_impl _ _ Hbytes). intros [[[r g] b] a] [Hr [Hg Hb]].
  unfold with_alpha. rewrite (white_alpha_exact r g b a Hr Hg Hb).
  rewrite white_soft_alpha_Qfloor. reflexivity.
Qed.

Lemma removeWhiteBackground_pixels_witness :
  Forall (fun '(r, g, b, _) => is_byte r /\ is_byte g /\ is_byte b)
         [(230, 230, 230, 255); (0, 0, 0, 255)] /\
  removeWhiteBackground_pass (pixels [(230, 230, 230, 255); (0, 0, 0, 255)]) =
    pixels [(230, 230, 230, 25); (0, 0, 0, 255)].
Proof.
  assert (Hb : Forall (fun '(r, g, b, _) => is_byte r /\ is_byte g /\ is_byte b)
                      [(230, 230, 230, 255); (0, 0, 0, 255)])
    by (repeat constructor; unfold is_byte; lia).
  split; [exact Hb|].
  rewrite (proj1 (removeWhiteBackground_pixels _ Hb)). vm_compute. reflexivity.
Defined.

End ClassifierFacts.

(* ------------------------------------------------------------------ *)
(** ** Canvas: opacity of the output, shadow layers *)

Module CanvasFacts.

Import Canvas Compositor.
Local Open Scope Q_scope.

Lemma over_onto_opaque (s d : Pixel) :
  alpha d == 1 ->
  alpha (over s d) == 1 /\
  red (over s d) == red s * alpha s + red d * (1 - alpha s) /\
  green (over s d) == green s * alpha s + green d * (1 - alpha s) /\
  blue (over s d) == blue s * alpha s + blue d * (1 - alpha s).
Proof.
  intros Hd. unfold over.
  assert (Hoa : alpha s + alpha d * (1 - alpha s) == 1) by (rewrite Hd; ring).
  destruct (Qeq_bool (alpha s + alpha d * (1 - alpha s)) 0) eqn:E.
  - apply Qeq_bool_iff in E. rewrite Hoa in E. discriminate E.
  - simpl. rewrite Hoa, Hd. repeat split; field.
Qed.

Lemma render_op_keeps_opaque sample grad_t (c : Z -> Z -> Pixel) (o : CanvasOp) (i j : Z) :
  alpha (c i j) == 1 -> alpha (render_op sample grad_t c o i j) == 1.
Proof.
  intros H. unfold render_op.
  destruct (source sample grad_t o i j) as [s|]; [apply over_onto_opaque; exact H|exact H].
Qed.

Lemma fold_render_keeps_opaque sample grad_t (ops : list CanvasOp) :
  forall (c : Z -> Z -> Pixel) (i j : Z),
  alpha (c i j) == 1 -> alpha (fold_left (render_op sample grad_t) ops c i j) == 1.
Proof.
  induction ops as [|o ops IH]; intros c i j H; simpl; [exact H|].
  apply IH, render_op_keeps_opaque, H.
Qed.

Lemma centre_inside (i w : Z) :
  (0 <= i < w)%Z -> Qle_bool 0 (centre i) && Qltb (centre i) (0 + inject_Z w) = true.
Proof.
  intros Hi. unfold centre, Qltb.
  assert (H0 : 0 <= inject_Z i) by (change 0 with (inject_Z 0); rewrite <- Zle_Qle; lia).
  assert (H1 : inject_Z (i + 1) <= inject_Z w) by (rewrite <- Zle_Qle; lia).
  rewrite inject_Z_plus in H1. change (inject_Z 1) with 1 in H1.
  apply andb_true_iff. split.
  - apply Qle_bool_iff. lra.
  - apply negb_true_iff. destruct (Qle_bool (0 + inject_Z w) (inject_Z i + (1 # 2))) eqn:E;
      [|reflexivity].
    apply Qle_bool_iff in E. lra.
Qed.

(** Filling the whole canvas white makes every pixel inside it opaque,
    whatever was there. *)
Lemma fill_white_pixel sample grad_t (c : Z -> Z -> Pixel) (w h i j : Z) :
  (0 <= i < w)%Z -> (0 <= j < h)%Z ->
  let p := render_op sample grad_t c (FillRect white 0 0 (inject_Z w) (inject_Z h)) i j in
  alpha p == 1 /\ red p == 255 /\ green p == 255 /\ blue p == 255.
Proof.
  intros Hi Hj. cbv zeta. unfold render_op, source, in_rect.
  pose proof (centre_inside i w Hi) as Ci. apply andb_true_iff in Ci as [Ci1 Ci2].
  pose proof (centre_inside j h Hj) as Cj. apply andb_true_iff in Cj as [Cj1 Cj2].
  rewrite Ci1, Ci2, Cj1, Cj2. simpl andb.
  unfold over. simpl alpha.
  assert (Hoa : 1 + alpha (c i j) * (1 - 1) == 1) by ring.
  destruct (Qeq_bool (1 + alpha (c i j) * (1 - 1)) 0) eqn:E.
  - apply Qeq_bool_iff in E. rewrite Hoa in E. discriminate E.
  - simpl. rewrite Hoa. repeat split; field.
Qed.

Lemma render_after_white_fill sample grad_t (w h i j : Z) (rest : list CanvasOp) :
  (0 <= i < w)%Z -> (0 <= j < h)%Z ->
  alpha (render sample grad_t (FillRect white 0 0 (inject_Z w) (inject_Z h) :: rest) i j) == 1.
Proof.
  intros Hi Hj. unfold render. simpl fold_left.
  apply fold_render_keeps_opaque. apply (fill_white_pixel sample grad_t _ w h i j Hi Hj).
Qed.

Lemma decode_jpeg_opaque (bytes : list (Q * Q * Q)) :
  Forall (fun '(_, _, _, a) => a = 255%Z) (decode_jpeg bytes).
Proof.
  induction bytes as [|[[r g] b] bytes IH]; simpl; constructor; [reflexivity|exact IH].
Qed.

(** C1: the canvas [compositeImages] encodes is opaque at every pixel
    (it starts with a full white fill and source-over onto an opaque pixel
    stays opaque), the decoded JPEG has alpha 255 everywhere, and the
    flatten step [stripTransparency] yields, at every pixel of the image,
    [srcRGB * srcA + 255 * (1 - srcA)] with alpha 1. *)
Theorem composited_output_opaque sample grad_t (sceneImageUrl productImageUrl : string)
    (naturalWidth naturalHeight : Q) (c : CompositingData) (i j : Z)
    (Hi : (0 <= i < canvasWidth c)%Z) (Hj : (0 <= j < canvasHeight c)%Z) :
  let canvas := render sample grad_t
                  (compositeImages sceneImageUrl productImageUrl naturalWidth naturalHeight c) in
  alpha (canvas i j) == 1 /\
  Forall (fun '(_, _, _, a) => a = 255%Z)
         (decode_jpeg (encode_jpeg canvas (canvasWidth c) (canvasHeight c))) /\
  (forall (imageUrl : string) (nw nh i' j' : Z),
     (0 <= i' < nw)%Z -> (0 <= j' < nh)%Z ->
     let p := render sample grad_t (stripTransparency imageUrl nw nh) i' j' in
     alpha p == 1 /\
     match sample imageUrl {| drawX := 0; drawY := 0; drawW := inject_Z nw;
                              drawH := inject_Z nh |} i' j' with
     | Some s => red p == red s * alpha s + 255 * (1 - alpha s) /\
                 green p == green s * alpha s + 255 * (1 - alpha s) /\
                 blue p == blue s * alpha s + 255 * (1 - alpha s)
     | None => red p == 255 /\ green p == 255 /\ blue p == 255
     end).
Proof.
  cbv zeta. split; [|split].
  - apply render_after_white_fill; assumption.
  - apply decode_jpeg_opaque.
  - intros imageUrl nw nh i' j' Hi' Hj'.
    pose proof (fill_white_pixel sample grad_t (fun _ _ => transparent) nw nh i' j' Hi' Hj')
      as [Ha [Hr [Hg Hb]]].
    unfold render, stripTransparency. simpl fold_left.
    set (c0 := render_op sample grad_t (fun _ _ => transparent)
                 (FillRect white 0 0 (inject_Z nw) (inject_Z nh))) in *.
    unfold render_op. cbn [source].
    destruct (sample imageUrl _ i' j') as [s|].
    + destruct (over_onto_opaque s (c0 i' j') Ha) as [Oa [Or [Og Ob]]].
      rewrite Hr in Or. rewrite Hg in Og. rewrite Hb in Ob.
      repeat split; assumption.
    + repeat split; assumption.
Qed.

Definition half_grey_sample (_ : string) (_ : DrawRect) (_ _ : Z) : option Pixel :=
  Some {| red := 10; green := 20; blue := 30; alpha := 1 # 2 |}.

Lemma composited_output_opaque_witness :
  (0 <= 3 < canvasWidth PipelineFacts.sample_compositing)%Z /\
  (0 <= 5 < canvasHeight PipelineFacts.sample_compositing)%Z /\
  alpha (render half_grey_sample (fun _ _ _ => 1 # 3)
           (compositeImages "scene" "product" 100 200 PipelineFacts.sample_compositing)
           3 5) == 1.
Proof.
  assert (H1 : (0 <= 3 < canvasWidth PipelineFacts.sample_compositing)%Z) by (simpl; lia).
  assert (H2 : (0 <= 5 < canvasHeight PipelineFacts.sample_compositing)%Z) by (simpl; lia).
  split; [exact H1|]. split; [exact H2|].
  exact (proj1 (composited_output_opaque half_grey_sample (fun _ _ _ => 1 # 3)
                  "scene" "product" 100 200 PipelineFacts.sample_compositing 3 5 H1 H2)).
Defined.

(** C2 (amended): [compositeImages] fills exactly three gradient
    ellipses, ambient, contact, core, in that order and all before the
    product is drawn (the product draw is the last operation); their gradient
    end radii are 0.70, 0.38, 0.22 x drawW and their peak alphas 0.10,
    0.18, 0.28. They are not concentric: with [cx = drawX + drawW / 2] and
    [cy = drawY + drawH] the ellipses are centred at [(cx, cy + 4)],
    [(cx + 0.03 drawW, cy + 2)], [(cx, cy + 1)], the gradients at
    [(cx, cy)], [(cx + 0.03 drawW, cy)], [(cx, cy)].
    [compositeProductOnBackdrop] fills only two: ambient (0.70 x drawW,
    peak 0.12) then contact (0.25 x drawW, peak 0.22), before its product. *)
Theorem compositeImages_shadow_layers (sceneImageUrl productImageUrl : string)
    (naturalWidth naturalHeight : Q) (c : CompositingData)
    (backdropUrl productUrl : string) (bw bh : Z) :
  let ops := compositeImages sceneImageUrl productImageUrl naturalWidth naturalHeight c in
  let d := place naturalWidth naturalHeight (productPosition c) in
  let cx := drawX d + drawW d / 2 in
  let cy := drawY d + drawH d in
  (exists ambient contact core,
     shadow_fills ops =
       [(ambient, (cx, cy + 4, drawW d * 0.65, drawH d * 0.06));
        (contact, (cx + drawW d * 0.03, cy + 2, drawW d * 0.38, drawH d * 0.025));
        (core, (cx, cy + 1, drawW d * 0.22, drawH d * 0.012))] /\
     last ops nop = DrawImage productImageUrl d /\
     shadow_fills (removelast ops) = shadow_fills ops /\
     gr1 ambient == drawW d * 0.7 /\ peak_alpha ambient == 0.10 /\
     gr1 contact == drawW d * 0.38 /\ peak_alpha contact == 0.18 /\
     gr1 core == drawW d * 0.22 /\ peak_alpha core == 0.28 /\
     gx1 ambient == cx /\ gy1 ambient == cy /\
     gx1 contact == cx + drawW d * 0.03 /\ gy1 contact == cy /\
     gx1 core == cx /\ gy1 core == cy) /\
  (let ops' := compositeProductOnBackdrop backdropUrl productUrl bw bh
                 naturalWidth naturalHeight in
   exists ambient contact geom1 geom2 dr,
     shadow_fills ops' = [(ambient, geom1); (contact, geom2)] /\
     last ops' nop = DrawImage productUrl dr /\
     shadow_fills (removelast ops') = shadow_fills ops' /\
     gr1 ambient == drawW dr * 0.7 /\ peak_alpha ambient == 0.12 /\
     gr1 contact == drawW dr * 0.25 /\ peak_alpha contact == 0.22).
Proof.
  cbv zeta. split.
  - do 3 eexists. split; [reflexivity|]. split; [reflexivity|]. split; [reflexivity|].
    repeat split; reflexivity.
  - unfold compositeProductOnBackdrop.
    destruct (Qltb _ _);
      (do 5 eexists; split; [reflexivity|]; split; [reflexivity|]; split; [reflexivity|];
       repeat split; reflexivity).
Qed.

(** C2 as stated fails: on the scenario of the placement claim the three
    ellipses of [compositeImages] do not share a centre, and
    [compositeProductOnBackdrop] paints two ellipses, not three. *)
Lemma shadow_layers_as_stated_fail :
  ~ three_concentric_shadows
      (compositeImages "scene" "product" 100 200
         {| enabled := true; canvasWidth := 300; canvasHeight := 100;
            productPosition := {| x := 0; y := 0; width := 300; height := 100 |} |}) /\
  List.length (shadow_fills (compositeProductOnBackdrop "backdrop" "product" 1024 1024 100 200)) = 2%nat.
Proof.
  split; [|reflexivity].
  intros (g1 & g2 & g3 & x1 & y1 & x2 & y2 & x3 & y3 & a1 & b1 & a2 & b2 & a3 & b3 &
          Hf & Hx12 & Hy12 & Hx23 & Hy23).
  vm_compute in Hf. injection Hf as <- <- <- <- <- <- <- <- <- <- <- <- <- <- <-.
  vm_compute in Hy12. discriminate Hy12.
Qed.

End CanvasFacts.

(* ------------------------------------------------------------------ *)
(** ** The hook's state transitions *)

Module HookFacts.

Import Pipeline Hook.
Local Open Scope string_scope.

Section Facts.

Variables PD AC Colors Fonts BK : Type.

(** X1: whatever sequence of the hook's own actions is performed from the
    initial state, the wizard step stays within 1..4. *)
Theorem step_stays_in_range (acts : list (Action PD AC Colors Fonts BK)) :
  (1 <= step (run _ _ _ _ _ acts) <= 4)%Z.
Proof.
  unfold run.
  assert (Hinit : (1 <= step (initialState PD AC Colors Fonts BK) <= 4)%Z)
    by (simpl; lia).
  revert Hinit.
  generalize (initialState PD AC Colors Fonts BK).
  induction acts as [|a acts IH]; intros s Hs; simpl; [exact Hs|].
  apply IH.
  destruct a as [scrape adCopyCall url|response base64|brandKit| |]; simpl.
  - unfold scanShopifyUrl.
    destruct scrape as [d|e]; simpl; [|exact Hs].
    destruct (scrapeSuccess d); [|simpl; exact Hs].
    destruct (scrapedProduct d); simpl; [lia|exact Hs].
  - unfold analyzeProductImage.
    destruct response as [d|e]; simpl; [|exact Hs].
    destruct (analyzeSuccess d); [|simpl; exact Hs].
    destruct (dominantColors d); [|simpl; exact Hs].
    destruct (fontsField d); simpl; exact Hs.
  - lia.
  - lia.
  - lia.
Qed.

(** X2: a scan whose scrape succeeds with a product always advances to
    step 2 and stores the product, even when the ad-copy call throws or
    answers without copies; the copies are then reset to the empty list. *)
Theorem scan_adcopy_failure_still_advances (scrape : Result (ScrapeData PD))
    (adCopyCall : PD -> Result (AdCopyData AC)) (url : string) (s : HookState PD AC Colors Fonts BK)
    (d : ScrapeData PD) (pd : PD)
    (Hscrape : scrape = Ok d) (Hsuccess : scrapeSuccess d = true)
    (Hproduct : scrapedProduct d = Some pd)
    (Hfail : exists e, generateAdCopyInternal (adCopyCall pd) = Throw e) :
  let s' := scanShopifyUrl scrape adCopyCall url s in
  step s' = 2%Z /\ productData s' = Some pd /\
  adCopies s' = [] /\ scannedUrl s' = url /\
  isLoading s' = false /\ loadingStage s' = "".
Proof.
  destruct Hfail as [e He].
  subst scrape; unfold scanShopifyUrl; simpl.
  rewrite Hsuccess, Hproduct; simpl.
  rewrite He; simpl.
  repeat split.
Qed.

(** X3: a scan whose scrape throws, or answers without success or without
    a product, changes neither the step, the product nor the ad copies; it
    records the URL and always clears the loading flag and stage. *)
Theorem scan_failure_keeps_state (scrape : Result (ScrapeData PD))
    (adCopyCall : PD -> Result (AdCopyData AC)) (url : string) (s : HookState PD AC Colors Fonts BK)
    (Hfail : match scrape with
             | Ok d => scrapeSuccess d = false \/ scrapedProduct d = None
             | Throw _ => True
             end) :
  let s' := scanShopifyUrl scrape adCopyCall url s in
  step s' = step s /\ productData s' = productData s /\
  adCopies s' = adCopies s /\ scannedUrl s' = url /\
  isLoading s' = false /\ loadingStage s' = "".
Proof.
  unfold scanShopifyUrl.
  destruct scrape as [d|e]; simpl; [|repeat split].
  destruct Hfail as [H|H]; rewrite H; simpl;
    [repeat split|destruct (scrapeSuccess d); simpl; repeat split].
Qed.

(** X4: an image analysis that throws, or answers without success or
    without dominant colours, keeps the previously extracted colours and
    fonts and the step; the uploaded image is stored and the analysing
    flag cleared. *)
Theorem analyze_failure_keeps_previous (response : Result (AnalyzeData Colors Fonts))
    (base64 : string) (s : HookState PD AC Colors Fonts BK)
    (Hfail : match response with
             | Ok d => analyzeSuccess d = false \/ dominantColors d = None
             | Throw _ => True
             end) :
  let s' := analyzeProductImage response base64 s in
  productColors s' = productColors s /\ detectedFonts s' = detectedFonts s /\
  step s' = step s /\ productImageBase64 s' = Some base64 /\
  isAnalyzingImage s' = false.
Proof.
  unfold analyzeProductImage.
  destruct response as [d|e]; simpl; [|repeat split].
  destruct Hfail as [H|H]; rewrite H; simpl;
    [repeat split|destruct (analyzeSuccess d); simpl; repeat split].
Qed.

End Facts.

(** A scan whose ad-copy call answers [success: false]. *)
Definition no_copies_answer : AdCopyData nat :=
  {| adSuccess := false; adCopiesField := None; adError := Some "quota" |}.

Definition one_product_scrape : ScrapeData nat :=
  {| scrapeSuccess := true; scrapedProduct := Some 7%nat; scrapeError := None |}.

Lemma scan_adcopy_failure_still_advances_witness :
  let s' := @scanShopifyUrl nat nat unit unit unit (Ok one_product_scrape)
              (fun _ => Ok no_copies_answer) "https://shop.example/p"
              (initialState nat nat unit unit unit) in
  step s' = 2%Z /\ productData s' = Some 7%nat /\
  adCopies s' = [] /\ scannedUrl s' = "https://shop.example/p" /\
  isLoading s' = false /\ loadingStage s' = "".
Proof.
  apply (scan_adcopy_failure_still_advances nat nat unit unit unit
           (Ok one_product_scrape) (fun _ => Ok no_copies_answer)
           "https://shop.example/p" (initialState nat nat unit unit unit)
           one_product_scrape 7%nat); try reflexivity.
  exists "quota"; reflexivity.
Defined.

Lemma scan_failure_keeps_state_witness :
  let s' := @scanShopifyUrl nat nat unit unit unit (Throw "network")
              (fun _ => Ok no_copies_answer) "https://shop.example/p"
              (initialState nat nat unit unit unit) in
  step s' = 1%Z /\ productData s' = None /\
  adCopies s' = [] /\ scannedUrl s' = "https://shop.example/p" /\
  isLoading s' = false /\ loadingStage s' = "".
Proof.
  exact (scan_failure_keeps_state nat nat unit unit unit (Throw "network")
           (fun _ => Ok no_copies_answer) "https://shop.example/p"
           (initialState nat nat unit unit unit) I).
Defined.

Lemma analyze_failure_keeps_previous_witness :
  let s := {| step := 3; isLoading := false; loadingStage := "";
              productData := None; scannedUrl := ""; adCopies := [];
              productImageBase64 := Some "old"; productColors := Some 1%nat;
              detectedFonts := Some 2%nat; isAnalyzingImage := false;
              confirmedBrandKit := @None unit |} in
  let s' := analyzeProductImage (ProductData:=nat) (AdCopy:=nat)
              (Ok {| analyzeSuccess := false; dominantColors := None;
                     fontsField := None; analyzeError := Some "bad image" |})
              "new" s in
  productColors s' = Some 1%nat /\ detectedFonts s' = Some 2%nat /\
  step s' = 3%Z /\ productImageBase64 s' = Some "new" /\ isAnalyzingImage s' = false.
Proof.
  exact (analyze_failure_keeps_previous nat nat nat nat unit
           (Ok {| analyzeSuccess := false; dominantColors := None;
                  fontsField := None; analyzeError := Some "bad image" |})
           "new" _ (or_introl eq_refl)).
Defined.

End HookFacts.

(* ------------------------------------------------------------------ *)
(** ** Resizing *)

Module GeometryFacts.

Import Canvas Compositor Resize.
Local Open Scope Q_scope.

(** [Math.round] brackets its argument. *)
Lemma round_spec (q : Q) :
  inject_Z (round q) <= q + (1 # 2) /\ q + (1 # 2) < inject_Z (round q + 1).
Proof. unfold round. split; [apply Qfloor_le|apply Qlt_floor]. Qed.

Lemma round_le (q : Q) (m : Z) : q <= inject_Z m -> (round q <= m)%Z.
Proof.
  intro Hq. destruct (round_spec q) as [Hlo _].
  destruct (Z_le_gt_dec (round q) m) as [Hle|Hgt]; [exact Hle|exfalso].
  assert (Hm : inject_Z (m + 1) <= inject_Z (round q)) by (rewrite <- Zle_Qle; lia).
  rewrite inject_Z_plus in Hm. change (inject_Z 1) with 1 in Hm. lra.
Qed.

Lemma round_ge (q : Q) (m : Z) : inject_Z m <= q -> (m <= round q)%Z.
Proof.
  intro Hq. destruct (round_spec q) as [_ Hhi].
  destruct (Z_le_gt_dec m (round q)) as [Hle|Hgt]; [exact Hle|exfalso].
  assert (Hm : inject_Z (round q + 1) <= inject_Z m) by (rewrite <- Zle_Qle; lia).
  lra.
Qed.

Lemma Qmin2_le_l (a b : Q) : Qmin2 a b <= a.
Proof.
  unfold Qmin2. destruct (Qle_bool a b) eqn:E; [apply Qle_refl|].
  apply Qlt_le_weak, Qnot_le_lt. intro H. apply Qle_bool_iff in H. congruence.
Qed.

Lemma Qmin2_le_r (a b : Q) : Qmin2 a b <= b.
Proof.
  unfold Qmin2. destruct (Qle_bool a b) eqn:E; [apply Qle_bool_iff; exact E|apply Qle_refl].
Qed.

(** [n * (maxDim / n) == maxDim] and [n * s <= maxDim] when [s <= maxDim / n]. *)
Lemma scaled_side_le (n m : Z) (s : Q) :
  (0 < n)%Z -> s <= inject_Z m / inject_Z n -> inject_Z n * s <= inject_Z m.
Proof.
  intros Hn Hs.
  assert (Hn' : 0 < inject_Z n) by (change 0 with (inject_Z 0); rewrite <- Zlt_Qlt; exact Hn).
  setoid_replace (inject_Z m) with (inject_Z n * (inject_Z m / inject_Z n))
    by (field; apply PlacementFacts.Qpos_nonzero; exact Hn').
  apply Qmult_le_l; [exact Hn'|exact Hs].
Qed.

Lemma scaled_side_eq (n m : Z) :
  (0 < n)%Z -> inject_Z n * (inject_Z m / inject_Z n) == inject_Z m.
Proof.
  intro Hn.
  assert (Hn' : 0 < inject_Z n) by (change 0 with (inject_Z 0); rewrite <- Zlt_Qlt; exact Hn).
  field. apply PlacementFacts.Qpos_nonzero. exact Hn'.
Qed.

(** X7: [resizeBase64Image] returns its input URL exactly when neither side
    exceeds [maxDim]; otherwise the re-encoded canvas has no side longer
    than [maxDim], and the side that limits the scale is exactly
    [maxDim] long. *)
Theorem resize_fits_maxDim (imageUrl : string) (w h maxDim : Z)
    (Hw : (0 < w)%Z) (Hh : (0 < h)%Z) (Hm : (0 < maxDim)%Z) :
  match resizeBase64Image imageUrl w h maxDim with
  | Unchanged u => u = imageUrl /\ (w <= maxDim)%Z /\ (h <= maxDim)%Z
  | Jpeg nw nh _ =>
      (maxDim < w \/ maxDim < h)%Z /\ (nw <= maxDim)%Z /\ (nh <= maxDim)%Z /\
      (nw = maxDim \/ nh = maxDim)
  end.
Proof.
  unfold resizeBase64Image.
  destruct ((w <=? maxDim)%Z && (h <=? maxDim)%Z) eqn:Esmall.
  - apply andb_true_iff in Esmall. destruct Esmall as [E1 E2].
    apply Z.leb_le in E1. apply Z.leb_le in E2. auto.
  - cbv zeta.
    set (a := inject_Z maxDim / inject_Z w).
    set (b := inject_Z maxDim / inject_Z h).
    pose proof (Qmin2_le_l a b) as Hla. pose proof (Qmin2_le_r a b) as Hlb.
    split; [apply andb_false_iff in Esmall; destruct Esmall as [E|E];
            apply Z.leb_gt in E; lia|].
    split; [apply round_le, scaled_side_le; assumption|].
    split; [apply round_le, scaled_side_le; assumption|].
    unfold Qmin2 in *. destruct (Qle_bool a b).
    + left. pose proof (scaled_side_eq w maxDim Hw) as Heq. fold a in Heq.
      apply Z.le_antisymm.
      * apply round_le. rewrite Heq. apply Qle_refl.
      * apply round_ge. rewrite Heq. apply Qle_refl.
    + right. pose proof (scaled_side_eq h maxDim Hh) as Heq. fold b in Heq.
      apply Z.le_antisymm.
      * apply round_le. rewrite Heq. apply Qle_refl.
      * apply round_ge. rewrite Heq. apply Qle_refl.
Qed.

Lemma resize_fits_maxDim_witness :
  ((0 < 3000)%Z /\ (0 < 2000)%Z /\ (0 < 1024)%Z) /\
  match resizeBase64Image "big.png"%string 3000 2000 1024 with
  | Unchanged u => u = "big.png"%string /\ (3000 <= 1024)%Z /\ (2000 <= 1024)%Z
  | Jpeg nw nh _ =>
      (1024 < 3000 \/ 1024 < 2000)%Z /\ (nw <= 1024)%Z /\ (nh <= 1024)%Z /\
      (nw = 1024 \/ nh = 1024)%Z
  end.
Proof.
  split; [repeat split; reflexivity|].
  apply (resize_fits_maxDim "big.png"%string 3000 2000 1024); reflexivity.
Defined.

(** X8: an image more than [2 * w * maxDim] pixels high (and higher than
    [maxDim]) is resized to a canvas of width 0: [Math.round] takes its
    scaled width, below 1/2, to 0. *)
Theorem resize_thin_image_zero_width (imageUrl : string) (w h maxDim : Z)
    (Hw : (0 < w)%Z) (Hm : (0 < maxDim)%Z) (Hh : (maxDim < h)%Z)
    (Hthin : (2 * w * maxDim < h)%Z) :
  exists nh ops, resizeBase64Image imageUrl w h maxDim = Jpeg 0 nh ops.
Proof.
  unfold resizeBase64Image.
  replace ((w <=? maxDim)%Z && (h <=? maxDim)%Z) with false
    by (symmetry; apply andb_false_iff; right; apply Z.leb_gt; exact Hh).
  cbv zeta.
  set (a := inject_Z maxDim / inject_Z w).
  set (b := inject_Z maxDim / inject_Z h).
  assert (Hw' : 0 < inject_Z w) by (change 0 with (inject_Z 0); rewrite <- Zlt_Qlt; exact Hw).
  assert (Hh' : 0 < inject_Z h) by (change 0 with (inject_Z 0); rewrite <- Zlt_Qlt; lia).
  assert (Hm' : 0 < inject_Z maxDim) by (change 0 with (inject_Z 0); rewrite <- Zlt_Qlt; exact Hm).
  assert (Hb : 0 < b) by (apply PlacementFacts.Qdiv_pos; assumption).
  assert (Ha : 0 < a) by (apply PlacementFacts.Qdiv_pos; assumption).
  assert (Hs : 0 <= Qmin2 a b /\ Qmin2 a b <= b).
  { split; [unfold Qmin2; destruct (Qle_bool a b); lra|apply Qmin2_le_r]. }
  assert (Hthin' : inject_Z (2 * w * maxDim) < inject_Z h) by (rewrite <- Zlt_Qlt; exact Hthin).
  rewrite !inject_Z_mult in Hthin'.
  assert (Hwb : inject_Z w * b < 1 # 2).
  { unfold b.
    setoid_replace (inject_Z w * (inject_Z maxDim / inject_Z h))
      with ((inject_Z w * inject_Z maxDim) / inject_Z h)
      by (field; apply PlacementFacts.Qpos_nonzero; exact Hh').
    apply Qlt_shift_div_r; [exact Hh'|]. change (inject_Z 2) with 2 in Hthin'. rewrite <- Qmult_assoc in Hthin'. lra. }
  assert (Hws : inject_Z w * Qmin2 a b <= inject_Z w * b)
    by (apply Qmult_le_l; [exact Hw'|apply Hs]).
  assert (Hws0 : 0 <= inject_Z w * Qmin2 a b)
    by (apply Qmult_le_0_compat; [apply Qlt_le_weak; exact Hw'|apply Hs]).
  assert (Hr : round (inject_Z w * Qmin2 a b) = 0%Z).
  { apply Z.le_antisymm.
    - destruct (round_spec (inject_Z w * Qmin2 a b)) as [Hlo _].
      destruct (Z_le_gt_dec (round (inject_Z w * Qmin2 a b)) 0) as [Hle|Hgt]; [exact Hle|exfalso].
      assert (H1 : inject_Z 1 <= inject_Z (round (inject_Z w * Qmin2 a b)))
        by (rewrite <- Zle_Qle; lia).
      change (inject_Z 1) with 1 in H1. lra.
    - apply round_ge. simpl. exact Hws0. }
  rewrite Hr. eexists; eexists; reflexivity.
Qed.

Lemma resize_thin_image_zero_width_witness :
  ((0 < 1)%Z /\ (0 < 1024)%Z /\ (1024 < 3000)%Z /\ (2 * 1 * 1024 < 3000)%Z) /\
  exists nh ops, resizeBase64Image "strip.png"%string 1 3000 1024 = Jpeg 0 nh ops.
Proof.
  split; [repeat split; reflexivity|].
  apply (resize_thin_image_zero_width "strip.png"%string 1 3000 1024); reflexivity.
Defined.

End GeometryFacts.

(* ------------------------------------------------------------------ *)
(** ** Shadow gradients *)

Module ShadowFacts.

Import Canvas Compositor.
Local Open Scope Q_scope.

(** Between two stops the interpolated alpha lies between theirs; the
    parameter is always past the previous stop's offset. *)
Lemma stop_alpha_bounds (hi t : Q) :
  forall (rest : list (Q * Q)) (prev : Q * Q),
  fst prev < t -> 0 <= snd prev <= hi ->
  Forall (fun s => 0 <= snd s <= hi) rest ->
  0 <= stop_alpha t prev rest <= hi.
Proof.
  induction rest as [|[o a] rest IH]; intros [p a0] Hp Ha0 Hrest; simpl in *;
    [exact Ha0|].
  inversion Hrest as [|? ? Ha Hrest']; subst. simpl in Ha.
  destruct (Qle_bool t o) eqn:E.
  - apply Qle_bool_iff in E.
    set (f := (t - p) / (o - p)).
    assert (Hf0 : 0 <= f).
    { unfold f. apply Qle_shift_div_l; [lra|]. lra. }
    assert (Hf1 : f <= 1).
    { unfold f. apply Qle_shift_div_r; [lra|]. lra. }
    split; nra.
  - apply IH; [|exact Ha|exact Hrest'].
    simpl. apply Qnot_le_lt. intro Hle. apply Qle_bool_iff in Hle. congruence.
Qed.

Lemma gradient_alpha_bounds (hi t : Q) (stops : list (Q * Q)) :
  0 <= hi -> Forall (fun s => 0 <= snd s <= hi) stops ->
  0 <= gradient_alpha stops t <= hi.
Proof.
  intros Hhi Hs. destruct stops as [|s0 rest]; simpl; [lra|].
  inversion Hs as [|? ? H0 Hrest]; subst.
  destruct (Qle_bool t (fst s0)) eqn:E; [exact H0|].
  apply stop_alpha_bounds; [|exact H0|exact Hrest].
  apply Qnot_le_lt. intro Hle. apply Qle_bool_iff in Hle. congruence.
Qed.

(** X9: every shadow ellipse either compositor paints is black with an
    alpha, at every gradient parameter, between 0 and the gradient's peak
    (its first stop); no peak exceeds 0.28, so the shadows never darken a
    pixel by more than 28%. *)
Theorem shadow_alpha_within_peak (sceneImageUrl productImageUrl backdropUrl productUrl : string)
    (naturalWidth naturalHeight : Q) (compositing : CompositingData)
    (backdropWidth backdropHeight : Z) (naturalWidth' naturalHeight' : Q)
    (g : RadialGradient) (e : Q * Q * Q * Q) (t : Q) :
  In (g, e) (shadow_fills (compositeImages sceneImageUrl productImageUrl
                             naturalWidth naturalHeight compositing) ++
             shadow_fills (compositeProductOnBackdrop backdropUrl productUrl
                             backdropWidth backdropHeight naturalWidth' naturalHeight')) ->
  0 <= gradient_alpha (colorStops g) t <= peak_alpha g /\ peak_alpha g <= 0.28.
Proof.
  unfold compositeImages, compositeProductOnBackdrop; cbv zeta.
  destruct (if Qltb _ _ then _ else _) as [dW dH].
  simpl. intros Hin.
  repeat (destruct Hin as [Hin|Hin]; [inversion Hin; subst; clear Hin;
    unfold peak_alpha; simpl colorStops; cbv iota beta;
    split; [apply gradient_alpha_bounds; [lra|repeat constructor; simpl; lra]|lra]|]).
  destruct Hin.
Qed.

Lemma shadow_alpha_within_peak_witness :
  let ops := compositeImages "scene.png" "cutout.png" 100 200 PipelineFacts.sample_compositing in
  In (hd (Build_RadialGradient 0 0 0 0 0 0 [], (0, 0, 0, 0)) (shadow_fills ops))
     (shadow_fills ops ++ shadow_fills (compositeProductOnBackdrop "b.png" "p.png" 1000 800 300 600)) /\
  0 <= gradient_alpha (colorStops (fst (hd (Build_RadialGradient 0 0 0 0 0 0 [], (0, 0, 0, 0))
                                            (shadow_fills ops)))) (1 # 3) <=
       peak_alpha (fst (hd (Build_RadialGradient 0 0 0 0 0 0 [], (0, 0, 0, 0)) (shadow_fills ops))).
Proof.
  cbv zeta.
  assert (Hin : In (hd (Build_RadialGradient 0 0 0 0 0 0 [], (0, 0, 0, 0))
                       (shadow_fills (compositeImages "scene.png" "cutout.png" 100 200
                                        PipelineFacts.sample_compositing)))
                   (shadow_fills (compositeImages "scene.png" "cutout.png" 100 200
                                    PipelineFacts.sample_compositing) ++
                    shadow_fills (compositeProductOnBackdrop "b.png" "p.png" 1000 800 300 600)))
    by (simpl; left; reflexivity).
  split; [exact Hin|].
  destruct (hd _ _) as [g0 e0] eqn:Hg. simpl fst.
  exact (proj1 (shadow_alpha_within_peak "scene.png" "cutout.png" "b.png" "p.png" 100 200
           PipelineFacts.sample_compositing 1000 800 300 600 g0 e0 (1 # 3) Hin)).
Defined.

End ShadowFacts.

(* ------------------------------------------------------------------ *)
(** ** The classifier loops over the byte buffer *)

Module BufferFacts.

Import Classifier ClassifierFacts.
Local Open Scope Z_scope.

(** The alpha [chromaKeyGreen] computes in its soft band, which depends on
    [g] and [max(r, b)] only. *)
Definition chroma_soft (g m : Z) : Z :=
  uint8_clamp (js_round (PrimFloat.mul (fl 255)
    (PrimFloat.sub (fl 1) (PrimFloat.div (fl (g - m)) (fl g))))).

Definition chroma_soft_ok (g m : Z) : bool :=
  negb (gt_times_1_4 g m) || (chroma_soft g m <=? 182).

Lemma chroma_soft_ok_all :
  forallb (fun g => forallb (chroma_soft_ok g) (map Z.of_nat (seq 0 256)))
          (map Z.of_nat (seq 151 105)) = true.
Proof. vm_compute. reflexivity. Qed.

Lemma chroma_soft_bound (g m : Z) :
  150 < g <= 255 -> 0 <= m <= 255 -> gt_times_1_4 g m = true -> chroma_soft g m <= 182.
Proof.
  intros Hg Hm Hgt. pose proof chroma_soft_ok_all as Hall.
  rewrite forallb_forall in Hall.
  assert (Hg' : In g (map Z.of_nat (seq 151 105)))
    by (apply in_map_iff; exists (Z.to_nat g); split; [lia|apply in_seq; lia]).
  specialize (Hall g Hg'). rewrite forallb_forall in Hall.
  assert (Hm' : In m (map Z.of_nat (seq 0 256)))
    by (apply in_map_iff; exists (Z.to_nat m); split; [lia|apply in_seq; lia]).
  specialize (Hall m Hm'). unfold chroma_soft_ok in Hall. rewrite Hgt in Hall.
  simpl in Hall. apply Z.leb_le in Hall. exact Hall.
Qed.

(** X10: on byte pixels, a classifier either leaves the alpha as it is or
    writes a byte no larger than its soft band allows: at most 182 for
    [chromaKeyGreen] (greenness stays above 1 - 1/1.4) and at most 34 for
    [removeWhiteBackground] (the channel sum is at least 663). *)
Theorem soft_band_alpha_bounds (r g b a : Z)
    (Hr : is_byte r) (Hg : is_byte g) (Hb : is_byte b) :
  (chroma_alpha r g b a = a \/ 0 <= chroma_alpha r g b a <= 182) /\
  (white_alpha r g b a = a \/ 0 <= white_alpha r g b a <= 34).
Proof.
  split.
  - unfold chroma_alpha.
    destruct ((180 <? g) && (r <? 120) && (b <? 120)); [right; lia|].
    destruct ((150 <? g) && gt_times_1_4 g r && gt_times_1_4 g b) eqn:E; [right|left; reflexivity].
    rewrite !andb_true_iff, Z.ltb_lt in E. destruct E as [[Hg150 Hgr] Hgb].
    fold (chroma_soft g (Z.max r b)).
    split; [unfold chroma_soft, uint8_clamp; lia|].
    unfold is_byte in *.
    apply chroma_soft_bound; [lia|lia|].
    destruct (Z.max_spec r b) as [[_ ->]|[_ ->]]; assumption.
  - rewrite (white_alpha_exact r g b a Hr Hg Hb).
    destruct ((240 <? r) && (240 <? g) && (240 <? b)); [right; lia|].
    destruct ((220 <? r) && (220 <? g) && (220 <? b)) eqn:E; [right|left; reflexivity].
    rewrite !andb_true_iff, !Z.ltb_lt in E. unfold is_byte, white_soft_alpha in *.
    split; [apply Z.div_pos; lia|].
    assert (Hlt : (2 * (765 - (r + g + b)) + 3) / 6 < 35) by (apply Z.div_lt_upper_bound; lia).
    lia.
Qed.

Lemma soft_band_alpha_bounds_witness :
  (is_byte 165 /\ is_byte 231 /\ is_byte 0) /\
  chroma_alpha 165 231 0 255 = 182 /\ white_alpha 221 221 222 255 = 34 /\
  (chroma_alpha 165 231 0 255 = 255 \/ 0 <= chroma_alpha 165 231 0 255 <= 182) /\
  (white_alpha 165 231 0 255 = 255 \/ 0 <= white_alpha 165 231 0 255 <= 34).
Proof.
  assert (H : is_byte 165 /\ is_byte 231 /\ is_byte 0) by (unfold is_byte; lia).
  split; [exact H|]. split; [vm_compute; reflexivity|]. split; [vm_compute; reflexivity|].
  destruct H as [Hr [Hg Hb]].
  exact (soft_band_alpha_bounds 165 231 0 255 Hr Hg Hb).
Defined.

(** The loop writes only bytes [i + 3]: it keeps the buffer's length and
    every other byte. *)
Lemma pixel_pass_length (f : Z -> Z -> Z -> Z -> Z) :
  forall data, List.length (pixel_pass f data) = List.length data.
Proof.
  fix IH 1.
  intros [|r [|g [|b [|a rest]]]]; simpl; try reflexivity.
  rewrite IH. reflexivity.
Qed.

Lemma pixel_pass_keeps_colour (f : Z -> Z -> Z -> Z -> Z) :
  forall data k, (k mod 4 <> 3)%nat -> nth_error (pixel_pass f data) k = nth_error data k.
Proof.
  fix IH 1.
  intros [|r [|g [|b [|a rest]]]] k Hk; simpl; try reflexivity.
  destruct k as [|[|[|[|k]]]]; simpl; try reflexivity.
  - exfalso. apply Hk. reflexivity.
  - apply IH. intro H3. apply Hk.
    replace (S (S (S (S k)))) with (k + 1 * 4)%nat by lia.
    rewrite Nat.Div0.mod_add. exact H3.
Qed.

(** X11: [chromaKeyGreen] and [removeWhiteBackground] keep the buffer's
    length and every byte that is not an alpha byte (index [k] with
    [k mod 4 <> 3]); this holds for any buffer, a trailing partial pixel
    included. *)
Theorem passes_write_only_alpha (data : list Z) :
  List.length (chromaKeyGreen_pass data) = List.length data /\
  List.length (removeWhiteBackground_pass data) = List.length data /\
  forall k, (k mod 4 <> 3)%nat ->
    nth_error (chromaKeyGreen_pass data) k = nth_error data k /\
    nth_error (removeWhiteBackground_pass data) k = nth_error data k.
Proof.
  unfold chromaKeyGreen_pass, removeWhiteBackground_pass.
  split; [apply pixel_pass_length|]. split; [apply pixel_pass_length|].
  intros k Hk. split; apply pixel_pass_keeps_colour; exact Hk.
Qed.

End BufferFacts.

(* ------------------------------------------------------------------ *)
(** ** More of [generateCreative] *)

Module PipelineMoreFacts.

Import Pipeline.
Local Open Scope string_scope.

(** X12: the cutout URL always is a data URL, and normalising it twice
    changes nothing. *)
Theorem cutoutUrl_is_data_url (cutoutBase64 : string) :
  String.prefix "data:" (cutoutUrl_of cutoutBase64) = true /\
  cutoutUrl_of (cutoutUrl_of cutoutBase64) = cutoutUrl_of cutoutBase64.
Proof.
  unfold cutoutUrl_of.
  destruct (String.prefix "data:" cutoutBase64) eqn:E.
  - rewrite E. split; reflexivity.
  - simpl. split; reflexivity.
Qed.

(** Both outcomes rewrite only the entries carrying [creativeId]. *)
Lemma generateCreative_map (env : Env) (creativeId : string)
    (creatives : list GeneratedCreative) :
  exists f, generateCreative env creativeId creatives =
              map (fun c => if String.eqb (id c) creativeId then f c else c)
                  (app creatives [{| id := creativeId; status := generating;
                                     outputImageUrl := None |}]).
Proof.
  unfold generateCreative. destruct (generate_body env); eexists; reflexivity.
Qed.

(** X13: [generateCreative] appends exactly one entry and leaves every
    entry with another id as it was, at the same position. *)
Theorem generateCreative_keeps_others (env : Env) (creativeId : string)
    (creatives : list GeneratedCreative) :
  List.length (generateCreative env creativeId creatives) = S (List.length creatives) /\
  forall k c, nth_error creatives k = Some c -> id c <> creativeId ->
    nth_error (generateCreative env creativeId creatives) k = Some c.
Proof.
  destruct (generateCreative_map env creativeId creatives) as [f ->].
  split.
  - rewrite length_map, length_app. simpl. lia.
  - intros k c Hk Hid.
    rewrite nth_error_map, nth_error_app1
      by (apply nth_error_Some; rewrite Hk; discriminate).
    rewrite Hk. simpl. apply String.eqb_neq in Hid. rewrite Hid. reflexivity.
Qed.

(** X14: the entry [generateCreative] appends never stays [generating]: it
    ends [completed] with the delivered image, or [error] without one. *)
Theorem generateCreative_settles (env : Env) (creativeId : string)
    (creatives : list GeneratedCreative) :
  exists c, nth_error (generateCreative env creativeId creatives) (List.length creatives) = Some c /\
    id c = creativeId /\
    ((status c = completed /\ exists url, outputImageUrl c = Some url /\ generate_body env = Ok url) \/
     (status c = error /\ outputImageUrl c = None /\ exists e, generate_body env = Throw e)).
Proof.
  unfold generateCreative.
  destruct (generate_body env) as [url|e] eqn:Hb;
    (rewrite nth_error_map, nth_error_app2 by lia;
     rewrite Nat.sub_diag; simpl; rewrite String.eqb_refl; eexists; split; [reflexivity|]);
    simpl; split; try reflexivity.
  - left. split; [reflexivity|]. exists url. split; reflexivity.
  - right. split; [reflexivity|]. split; [reflexivity|]. exists e. reflexivity.
Qed.

(** X15: if background removal throws or answers [success: false], or the
    generation call throws, the body throws: no compositing or flattening
    result can complete the creative, which ends [error] with no image. *)
Theorem early_failure_marks_error (env : Env) (creativeId : string)
    (creatives : list GeneratedCreative)
    (Hfail : match removeBackground env with
             | Throw _ => True
             | Ok bg =>
                 success bg = false \/
                 exists e, invokeGenerateCreative env (cutoutUrl_of (cutoutBase64 bg)) = Throw e
             end) :
  nth_error (generateCreative env creativeId creatives) (List.length creatives) =
    Some {| id := creativeId; status := error; outputImageUrl := None |}.
Proof.
  assert (Hb : exists e, generate_body env = Throw e).
  { unfold generate_body.
    destruct (removeBackground env) as [bg|e]; simpl; [|exists e; reflexivity].
    destruct Hfail as [Hs|[e He]].
    - rewrite Hs. simpl. eexists; reflexivity.
    - destruct (success bg); simpl; [|eexists; reflexivity].
      rewrite He. simpl. exists e. reflexivity. }
  destruct Hb as [e He].
  unfold generateCreative. rewrite He.
  rewrite nth_error_map, nth_error_app2 by lia.
  rewrite Nat.sub_diag. simpl. rewrite String.eqb_refl. reflexivity.
Qed.

Lemma early_failure_marks_error_witness :
  let env := {| removeBackground := Ok {| success := false; cutoutBase64 := "";
                                           bgErrorMessage := "Background removal failed" |};
                invokeGenerateCreative := fun _ => Ok {| imageUrl := "ai.png"; compositing := None |};
                compositeImages := fun _ _ _ => Ok "composited.png";
                stripTransparency := fun u => Ok u |} in
  nth_error (generateCreative env "creative_1" []) 0 =
    Some {| id := "creative_1"; status := error; outputImageUrl := None |}.
Proof.
  cbv zeta.
  apply (early_failure_marks_error _ "creative_1" []). left. reflexivity.
Defined.

(** X16: when compositing succeeds, the creative is completed with the
    composited image passed through [stripTransparency], or with the
    composited image itself if that throws: the AI scene alone is never
    delivered. *)
Theorem compositing_success_delivers_composite (env : Env) (creativeId : string)
    (creatives : list GeneratedCreative) (bgData : BgData) (data : CreativeData)
    (c : CompositingData) (composited : string)
    (Hbg : removeBackground env = Ok bgData)
    (Hsuccess : success bgData = true)
    (Hgen : invokeGenerateCreative env (cutoutUrl_of (cutoutBase64 bgData)) = Ok data)
    (Hcomp : compositing data = Some c)
    (Henabled : enabled c = true)
    (Hok : compositeImages env (imageUrl data) (cutoutUrl_of (cutoutBase64 bgData)) c
           = Ok composited) :
  nth_error (generateCreative env creativeId creatives) (List.length creatives) =
    Some {| id := creativeId; status := completed;
            outputImageUrl := Some (catch_or (stripTransparency env composited) composited) |}.
Proof.
  assert (Hbody : generate_body env =
                  Ok (catch_or (stripTransparency env composited) composited)).
  { unfold generate_body. rewrite Hbg. simpl. rewrite Hsuccess. simpl.
    rewrite Hgen. simpl. rewrite Hcomp, Henabled, Hok. reflexivity. }
  unfold generateCreative. rewrite Hbody.
  rewrite nth_error_map, nth_error_app2 by lia.
  rewrite Nat.sub_diag. simpl. rewrite String.eqb_refl. reflexivity.
Qed.

Lemma compositing_success_delivers_composite_witness :
  let bg := {| success := true; cutoutBase64 := "iVBOR"; bgErrorMessage := "" |} in
  let data := {| imageUrl := "ai.png"; compositing := Some PipelineFacts.sample_compositing |} in
  let env := {| removeBackground := Ok bg;
                invokeGenerateCreative := fun _ => Ok data;
                compositeImages := fun _ _ _ => Ok "composited.png";
                stripTransparency := fun u => Throw "decode error" |} in
  nth_error (generateCreative env "creative_2" []) 0 =
    Some {| id := "creative_2"; status := completed; outputImageUrl := Some "composited.png" |}.
Proof.
  cbv zeta.
  change 0%nat with (List.length (@nil GeneratedCreative)).
  erewrite (compositing_success_delivers_composite _ "creative_2" []
           {| success := true; cutoutBase64 := "iVBOR"; bgErrorMessage := "" |}
           {| imageUrl := "ai.png"; compositing := Some PipelineFacts.sample_compositing |}
           PipelineFacts.sample_compositing "composited.png"); reflexivity.
Defined.

End PipelineMoreFacts.
